(** * whisper_daemon: a line-based transcription daemon

    Shallow embedding of [src/whisper_daemon.py] and the properties of
    its protocol: one handshake line, then one reply per request line.

    The inference library ([faster_whisper]) is an opaque collaborator:
    the development is parametric in the model constructor and in the
    [transcribe] method, both of which may raise and may depend on (and
    change) the state of the outside world (files, caches).

    A process is described by the trace of what it does: writes to the
    error stream, writes and flushes of standard output, lines read from
    standard input, calls of the library. It is also parametric in its
    two protocol streams: in the characters the encoding of standard
    output has (a write of a text it cannot encode raises, outside any
    handler of the program), and in the way the iteration of standard
    input ends after the lines it yields (at the end of the stream, or
    with the exception of its decoder). Failures of the operating system
    on the streams (a closed pipe) are not described. *)

From Stdlib Require Import NArith String Ascii.
From stdpp Require Import gmap list.

Local Open Scope N_scope.

(** ** Python strings

    A [str] is a sequence of Unicode code points. *)

Definition codepoint : Type := N.
Definition str : Type := list codepoint.

(** Literals of the source are written as Rocq string literals. *)
Definition lit (s : string) : str :=
  List.map N_of_ascii (list_ascii_of_string s).

(** The newline character, [chr(10)]. *)
Definition NL : codepoint := 10.

(** [str.isspace] on one character: the characters that [str.strip()]
    removes (CPython's whitespace table: TAB, LF, VT, FF, CR, FS, GS, RS,
    US, SPACE, NEL, NBSP and the Unicode space separators). *)
Definition isspace (c : codepoint) : bool :=
  ((9 <=? c) && (c <=? 13)) || ((28 <=? c) && (c <=? 32))
  || (c =? 133) || (c =? 160) || (c =? 5760)
  || ((8192 <=? c) && (c <=? 8202))
  || (c =? 8232) || (c =? 8233) || (c =? 8239) || (c =? 8287)
  || (c =? 12288).

(** [s.lstrip()] *)
Fixpoint lstrip (s : str) : str :=
  match s with
  | [] => []
  | c :: r => if isspace c then lstrip r else s
  end.

(** [s.rstrip()] *)
Definition rstrip (s : str) : str := rev (lstrip (rev s)).

(** [s.strip()]: leading whitespace is skipped first, then trailing. *)
Definition strip (s : str) : str := rstrip (lstrip s).

(** [sep.join(parts)] *)
Fixpoint join (sep : str) (parts : list str) : str :=
  match parts with
  | [] => []
  | [p] => p
  | p :: ps => p ++ sep ++ join sep ps
  end.

(** Truthiness of a string: [not path] holds of the empty string only. *)
Definition is_empty (s : str) : bool :=
  match s with [] => true | _ => false end.

(** A line of whitespace only (the empty line included). *)
Definition blank (s : str) : bool := forallb isspace s.

(** Iterating a text stream yields its lines; every line keeps its
    terminating newline, and a last line without one is yielded as is. *)
Fixpoint readlines (s : str) : list str :=
  match s with
  | [] => []
  | c :: r =>
      if c =? NL then [c] :: readlines r
      else match readlines r with
           | [] => [[c]]
           | l :: ls => (c :: l) :: ls
           end
  end.

(** ** The inference library, as seen by the daemon *)

(** An instance of Python's [Exception] class; [message e] is [str(e)]. *)
Record Exception : Type := { message : str }.

(** An exception that is no instance of [Exception]: [KeyboardInterrupt],
    [SystemExit], [GeneratorExit]. The handler of the request loop, which
    names [Exception], does not catch it. *)
Record BaseException : Type := { signal : str }.

Inductive result (A : Type) : Type :=
| Ok (a : A)
| Raise (e : Exception)
| Interrupt (b : BaseException).
Arguments Ok {A} a.
Arguments Raise {A} e.
Arguments Interrupt {A} b.

(** A transcribed unit of speech; the daemon reads its [text] only. *)
Record Segment : Type := { text : str }.

(** [transcribe] returns its segments lazily: iterating them yields
    segments and then either stops or raises. *)
Inductive generator : Type :=
| StopIteration
| Yield (s : Segment) (rest : generator)
| Throw (e : Exception)
| Abort (b : BaseException).

(** The keyword arguments of [model.transcribe]. *)
Record transcribe_kwargs : Type := {
  language : option str;
  beam_size : N;
  vad_filter : bool;
  vad_parameters : gmap str N
}.

(** [logging.WARNING] *)
Definition WARNING : N := 30.

(** What a write to standard output raises on a text its encoding does
    not have, and what the iteration of standard input raises on bytes
    its decoding does not accept. The texts of their messages depend on
    the codec and are not seen by the program. *)
Definition UnicodeEncodeError : Exception :=
  {| message := lit "codec can't encode character" |}.


(** ** Processes *)

(** What the process does, in the order it does it. *)
Inductive event (Model : Type) : Type :=
| Stderr (s : str)                       (* text written to sys.stderr *)
| Stdout (s : str)                       (* sys.stdout.write(s) *)
| Flush                                  (* sys.stdout.flush() *)
| ReadLine (line : str)                  (* sys.stdin yields [line] *)
| LoadModel (name device compute_type : str)
| Transcribe (m : Model) (path : str) (kw : transcribe_kwargs).
Arguments Stderr {Model} s.
Arguments Stdout {Model} s.
Arguments Flush {Model}.
Arguments ReadLine {Model} line.
Arguments LoadModel {Model} name device compute_type.
Arguments Transcribe {Model} m path kw.

(** The state the program changes besides its streams. *)
Record machine (World : Type) : Type := {
  environ : gmap str str;                (* os.environ *)
  logging_disabled : N;                  (* level set by logging.disable *)
  world : World
}.
Arguments environ {World} m.
Arguments logging_disabled {World} m.
Arguments world {World} m.

(** One run of a piece of program: the events it emitted, the machine it
    left, and whether it returned or raised. *)
Record run (Model World A : Type) : Type := {
  events : list (event Model);
  final : machine World;
  outcome : result A
}.
Arguments events {Model World A} r.
Arguments final {Model World A} r.
Arguments outcome {Model World A} r.

(** ** Sample collaborators

    Small inference libraries on which the statements below are run: the
    model handle is a number, the world counts the calls made so far. *)

Definition FileNotFoundError : Exception :=
  {| message := lit "No such file or directory: 'missing.wav'" |}.

Definition InvalidDataError : Exception :=
  {| message := lit "Invalid data found when processing input" |}.

Definition sample_WhisperModel (name device compute_type : str) (w : nat)
    : result N * nat :=
  (Ok 7, S w).


Definition sample_transcribe (m : N) (path : str) (kw : transcribe_kwargs)
    (w : nat) : result generator * nat :=
  if bool_decide (path = lit "speech.wav") then
    (Ok (Yield {| text := lit " Hello there." |}
          (Yield {| text := lit " General Kenobi. " |} StopIteration)), S w)
  else if bool_decide (path = lit "silence.wav") then
    (Ok StopIteration, S w)
  else if bool_decide (path = lit "truncated.wav") then
    (Ok (Yield {| text := lit " Hello" |} (Throw InvalidDataError)), S w)
  else
    (Raise FileNotFoundError, S w).

(** A library that returns what a daemon may not expect: a text of two
    lines, a text that reads as the handshake, a text with a character
    outside ASCII, and an exit raised by the call. *)
Definition SystemExit : BaseException := {| signal := lit "SystemExit" |}.

Definition awkward_transcribe (m : N) (path : str) (kw : transcribe_kwargs)
    (w : nat) : result generator * nat :=
  if bool_decide (path = lit "lyrics.wav") then
    (Ok (Yield {| text := lit "la la" ++ [NL] ++ lit "la la" |}
           StopIteration), S w)
  else if bool_decide (path = lit "ready.wav") then
    (Ok (Yield {| text := lit " READY" |} StopIteration), S w)
  else if bool_decide (path = lit "cafe.wav") then
    (Ok (Yield {| text := lit " caf" ++ [233] |} StopIteration), S w)
  else if bool_decide (path = lit "exit.wav") then
    (Interrupt SystemExit, S w)
  else
    (Raise FileNotFoundError, S w).

(** The characters beyond ASCII that two encodings of standard output
    have: UTF-8 has every character but the surrogates, ASCII has
    none. *)
Definition utf8 (c : codepoint) : bool :=
  (c <=? 1114111) && negb ((55296 <=? c) && (c <=? 57343)).

Definition ascii_only (c : codepoint) : bool := false.

(** Request lines as a client sends them. *)
Definition speech_request : str := lit " speech.wav" ++ [NL].
Definition silence_request : str := lit "silence.wav" ++ [NL].
Definition missing_request : str := lit "missing.wav " ++ [NL].
Definition truncated_request : str := lit "truncated.wav" ++ [NL].
Definition blank_request : str := [32; 9; NL].
Definition lyrics_request : str := lit "lyrics.wav" ++ [NL].
Definition ready_request : str := lit "ready.wav" ++ [NL].
Definition cafe_request : str := lit "cafe.wav" ++ [NL].
Definition exit_request : str := lit "exit.wav" ++ [NL].

(** The machine a run starts from: nothing in the environment, no call
    made yet. *)
Definition at_boot : machine nat :=
  {| environ := ∅; logging_disabled := 0; world := 0%nat |}.

(** The same with [WHISPER_MODEL=tiny] exported. *)
Definition at_boot_tiny : machine nat :=
  {| environ := {[ lit "WHISPER_MODEL" := lit "tiny" ]};
     logging_disabled := 0; world := 0%nat |}.

Section Daemon.

Set Default Proof Using "Type".

(** The loaded model and the outside world the calls of the library read
    and change. *)
Context {Model World : Type}.

(** The characters beyond ASCII that the encoding of standard output
    has. *)
Variable stdout_encodes : codepoint -> bool.

(** How the iteration of standard input ends after the lines it yields:
    [Ok tt] at the end of the stream, [Raise e] when the bytes that
    follow cannot be decoded. *)
Variable stdin_end : result unit.

(** The constructor [WhisperModel(name, device=..., compute_type=...)] and
    the method [model.transcribe(path, **kwargs)]. *)
Variable WhisperModel : str -> str -> str -> World -> result Model * World.
Variable transcribe :
  Model -> str -> transcribe_kwargs -> World -> result generator * World.

Definition prog (A : Type) : Type := machine World -> run Model World A.

#[local] Instance prog_ret : MRet prog := fun A a s =>
  {| events := []; final := s; outcome := Ok a |}.

#[local] Instance prog_bind : MBind prog := fun A B k p s =>
  let r := p s in
  match outcome r with
  | Ok a =>
      let r' := k a (final r) in
      {| events := events r ++ events r';
         final := final r'; outcome := outcome r' |}
  | Raise e => {| events := events r; final := final r; outcome := Raise e |}
  | Interrupt b =>
      {| events := events r; final := final r; outcome := Interrupt b |}
  end.

(** [try: p  except Exception as e: h e]: what is no instance of
    [Exception] goes through. *)
Definition try_except {A} (p : prog A) (h : Exception -> prog A) : prog A :=
  fun s =>
    let r := p s in
    match outcome r with
    | Ok _ => r
    | Raise e =>
        let r' := h e (final r) in
        {| events := events r ++ events r';
           final := final r'; outcome := outcome r' |}
    | Interrupt _ => r
    end.

Definition emit (e : event Model) : prog unit := fun s =>
  {| events := [e]; final := s; outcome := Ok tt |}.

(** [os.environ.get(key, default)] *)
Definition environ_get (key default_ : str) : prog str := fun s =>
  {| events := []; final := s;
     outcome := Ok (default default_ (environ s !! key)) |}.

(** [os.environ[key] = value] *)
Definition environ_set (key value : str) : prog unit := fun s =>
  {| events := [];
     final := {| environ := <[key := value]> (environ s);
                 logging_disabled := logging_disabled s;
                 world := world s |};
     outcome := Ok tt |}.

(** [logging.disable(level)] *)
Definition logging_disable (level : N) : prog unit := fun s =>
  {| events := [];
     final := {| environ := environ s;
                 logging_disabled := level;
                 world := world s |};
     outcome := Ok tt |}.

(** [print(s, file=sys.stderr)]: the error stream replaces what its
    encoding does not have and does not raise. *)
Definition print_stderr (s : str) : prog unit := emit (Stderr (s ++ [NL])).

(** The characters the encoding of standard output has: those of ASCII
    and those [stdout_encodes] gives. *)
Definition encodable (c : codepoint) : bool := (c <? 128) || stdout_encodes c.

Definition can_encode (s : str) : bool := forallb encodable s.

(** [sys.stdout.write(s)]: the text is encoded as a whole; when it cannot
    be, nothing is written and the call raises. *)
Definition stdout_write (s : str) : prog unit := fun st =>
  if can_encode s then
    {| events := [Stdout s]; final := st; outcome := Ok tt |}
  else
    {| events := []; final := st; outcome := Raise UnicodeEncodeError |}.

Definition stdout_flush : prog unit := emit Flush.

Definition set_world (s : machine World) (w : World) : machine World :=
  {| environ := environ s; logging_disabled := logging_disabled s;
     world := w |}.

(** [WhisperModel(name, device=device, compute_type=compute_type)] *)
Definition new_WhisperModel (name device compute_type : str) : prog Model :=
  fun s =>
    let '(r, w) := WhisperModel name device compute_type (world s) in
    {| events := [LoadModel name device compute_type];
       final := set_world s w; outcome := r |}.

(** [model.transcribe(path, **kw)] *)
Definition model_transcribe (model : Model) (path : str)
    (kw : transcribe_kwargs) : prog generator :=
  fun s =>
    let '(r, w) := transcribe model path kw (world s) in
    {| events := [Transcribe model path kw];
       final := set_world s w; outcome := r |}.

(** [(s.text.strip() for s in segments)], consumed to its end. *)
Fixpoint stripped_texts (segments : generator) : result (list str) :=
  match segments with
  | StopIteration => Ok []
  | Yield s rest =>
      match stripped_texts rest with
      | Ok ts => Ok (strip (text s) :: ts)
      | Raise e => Raise e
      | Interrupt b => Interrupt b
      end
  | Throw e => Raise e
  | Abort b => Interrupt b
  end.

Definition lift_result {A} (r : result A) : prog A := fun s =>
  {| events := []; final := s; outcome := r |}.

(** [for line in sys.stdin: body line] over the lines the stream yields,
    and then its end. *)
Fixpoint for_line_in (stdin : list str) (body : str -> prog unit)
    : prog unit :=
  match stdin with
  | [] => lift_result stdin_end
  | line :: rest =>
      emit (ReadLine line) ;; body line ;; for_line_in rest body
  end.

Definition kwargs : transcribe_kwargs :=
  {| language := None;
     beam_size := 5;
     vad_filter := true;
     vad_parameters := {[ lit "min_silence_duration_ms" := 500 ]} |}.

(** The body of the request loop (lines 32 to 52 of the source). *)
Definition handle_line (model : Model) (line : str) : prog unit :=
  let path := strip line in
  if is_empty path then
    stdout_write [NL] ;;
    stdout_flush
  else
    text ← try_except
             (segments ← model_transcribe model path kwargs;
              texts ← lift_result (stripped_texts segments);
              mret (join (lit " ") texts))
             (fun e =>
                print_stderr (lit "Error: " ++ message e) ;;
                mret []);
    stdout_write (text ++ [NL]) ;;
    stdout_flush.

Definition request_loop (model : Model) (stdin : list str) : prog unit :=
  for_line_in stdin (handle_line model).

(** Lines 14 to 29 of the source: configuration, model load, handshake. *)
Definition startup : prog Model :=
  model_name ← environ_get (lit "WHISPER_MODEL") (lit "small");
  environ_set (lit "CT2_VERBOSE") (lit "0") ;;
  logging_disable WARNING ;;
  print_stderr (lit "Loading Whisper model '" ++ model_name ++ lit "'...") ;;
  model ← new_WhisperModel model_name (lit "cpu") (lit "int8");
  print_stderr (lit "Model ready.") ;;
  stdout_write (lit "READY" ++ [NL]) ;;
  stdout_flush ;;
  mret model.

Definition main (stdin : list str) : prog unit :=
  model ← startup;
  request_loop model stdin.


(** *** Views of a trace *)

(** The strings written to standard output, in order. *)
Definition stdout_of (tr : list (event Model)) : list str :=
  omap (fun e => match e with Stdout s => Some s | _ => None end) tr.

(** The diagnostics written to the error stream, in order. *)
Definition stderr_of (tr : list (event Model)) : list str :=
  omap (fun e => match e with Stderr s => Some s | _ => None end) tr.

(** The model handles [transcribe] was called on, in order. *)
Definition models_used (tr : list (event Model)) : list Model :=
  omap (fun e => match e with Transcribe m _ _ => Some m | _ => None end) tr.

(** The paths [transcribe] was called with, in order. *)
Definition paths_transcribed (tr : list (event Model)) : list str :=
  omap (fun e => match e with Transcribe _ p _ => Some p | _ => None end) tr.

(** The model constructions, in order. *)
Definition loads_of (tr : list (event Model)) : list (str * str * str) :=
  omap (fun e => match e with
                 | LoadModel n d c => Some (n, d, c)
                 | _ => None
                 end) tr.

(** The traffic on the two protocol streams: reads of standard input,
    writes and flushes of standard output. *)
Definition is_io (e : event Model) : bool :=
  match e with
  | ReadLine _ | Stdout _ | Flush => true
  | _ => false
  end.

Definition io_of (tr : list (event Model)) : list (event Model) :=
  List.filter is_io tr.

(** One request and its reply on the protocol streams. *)
Definition exchange (line text : str) : list (event Model) :=
  [ReadLine line; Stdout (text ++ [NL]); Flush].

(** A trace without its diagnostics: the error stream is no part of the
    protocol. *)
Definition is_protocol (e : event Model) : bool :=
  match e with
  | Stderr _ => false
  | _ => true
  end.

Definition protocol_of (tr : list (event Model)) : list (event Model) :=
  List.filter is_protocol tr.

(** The call of the library a request line leads to: none for a line
    that is empty once stripped. *)
Definition call_for (model : Model) (line : str) : list (event Model) :=
  if is_empty (strip line) then []
  else [Transcribe model (strip line) kwargs].

(** One request served: the line is read, the library is called on its
    path, the reply is written and flushed. *)
Definition round (model : Model) (line text : str) : list (event Model) :=
  ReadLine line :: call_for model line ++ [Stdout (text ++ [NL]); Flush].

(** A generator that yields the given segments and stops. *)
Fixpoint yields (segs : list Segment) : generator :=
  match segs with
  | [] => StopIteration
  | s :: rest => Yield s (yields rest)
  end.

(** The model name the startup code resolves. *)
Definition model_name (s : machine World) : str :=
  default (lit "small") (environ s !! lit "WHISPER_MODEL").

(** What the startup code prints before it constructs the model. *)
Definition loading_message (name : str) : str :=
  (lit "Loading Whisper model '" ++ name ++ lit "'...") ++ [NL].

(** The handshake token as written to standard output. *)
Definition READY : str := lit "READY" ++ [NL].

(** The machine the request loop starts from, when the constructor left
    the world [w]. *)
Definition loaded (s : machine World) (w : World) : machine World :=
  {| environ := <[lit "CT2_VERBOSE" := lit "0"]> (environ s);
     logging_disabled := WARNING;
     world := w |}.

(** The texts of the segments a generator yields, until it stops or
    raises. *)
Fixpoint texts_of (segments : generator) : list str :=
  match segments with
  | StopIteration => []
  | Yield s rest => text s :: texts_of rest
  | Throw _ => []
  | Abort _ => []
  end.

(** The library returns no segment whose text holds a newline. *)
Definition single_line_texts : Prop :=
  forall model path kw w g w',
    transcribe model path kw w = (Ok g, w') ->
    Forall (fun t => NL ∉ t) (texts_of g).

(** How a generator ends when it is iterated: whether with an exception
    that is no instance of [Exception]. *)
Fixpoint aborts (segments : generator) : bool :=
  match segments with
  | StopIteration => false
  | Yield _ rest => aborts rest
  | Throw _ => false
  | Abort _ => true
  end.

(** The library raises nothing but instances of [Exception], in the call
    of [transcribe] and in the iteration of its segments. *)
Definition raises_exceptions_only : Prop :=
  forall model path kw w,
    match (transcribe model path kw w).1 with
    | Ok g => aborts g = false
    | Raise _ => True
    | Interrupt _ => False
    end.

(** The library returns no segment whose text holds a character the
    encoding of standard output does not have. *)
Definition encodable_texts : Prop :=
  forall model path kw w g w',
    transcribe model path kw w = (Ok g, w') ->
    Forall (fun t => can_encode t = true) (texts_of g).


(** What the body of the loop emits before its reply, or before it
    raises: nothing on the protocol streams, no construction of a model,
    and the one call of the library the line leads to. *)
Definition before_reply (model : Model) (line : str)
    (tr : list (event Model)) : Prop :=
  io_of tr = []
  /\ loads_of tr = []
  /\ protocol_of tr = call_for model line
  /\ Forall (fun m => m = model) (models_used tr).

(** *** Further views of a run *)

(** The keyword arguments [transcribe] was called with, in order. *)
Definition kwargs_used (tr : list (event Model)) : list transcribe_kwargs :=
  omap (fun e => match e with Transcribe _ _ kw => Some kw | _ => None end) tr.

(** The paths a sequence of input lines asks for: the stripped lines that
    are not empty, in the order of the lines. *)
Definition requested_paths (stdin : list str) : list str :=
  List.filter (fun p => negb (is_empty p)) (List.map strip stdin).

(** Every write to standard output is directly followed by a flush. *)
Fixpoint flushed (tr : list (event Model)) : bool :=
  match tr with
  | [] => true
  | Stdout _ :: rest =>
      match rest with
      | Flush :: _ => flushed rest
      | _ => false
      end
  | _ :: rest => flushed rest
  end.

(** The number of newline characters of a text. *)
Definition newlines (s : str) : nat := length (List.filter (N.eqb NL) s).

(** *** Facts about stripping *)

Lemma lstrip_blank s : blank s = true -> lstrip s = [].
Proof.
  induction s as [|c r IH]; simpl; [done|].
  intros [Hc Hr]%andb_true_iff. rewrite Hc. auto.
Qed.

Lemma lstrip_split s :
  exists pre, s = pre ++ lstrip s /\ blank pre = true.
Proof.
  induction s as [|c r [pre [E B]]]; simpl.
  - by exists [].
  - destruct (isspace c) eqn:Hc.
    + exists (c :: pre); simpl. rewrite Hc, B. split; [congruence | done].
    + by exists [].
Qed.

Lemma lstrip_head s c r : lstrip s = c :: r -> isspace c = false.
Proof.
  induction s as [|d t IH]; simpl; [done|].
  destruct (isspace d) eqn:Hd; [auto|].
  intros [= -> _]. done.
Qed.

Lemma blank_rev s : blank (rev s) = blank s.
Proof.
  unfold blank. induction s as [|c r IH]; simpl; [done|].
  rewrite forallb_app, IH. simpl. rewrite andb_true_r. apply andb_comm.
Qed.

Lemma blank_app s t : blank (s ++ t) = blank s && blank t.
Proof. apply forallb_app. Qed.

Lemma rstrip_split s :
  exists post, s = rstrip s ++ post /\ blank post = true.
Proof.
  destruct (lstrip_split (rev s)) as [pre [E B]].
  exists (rev pre). split.
  - unfold rstrip. rewrite <- rev_app_distr, <- E. by rewrite rev_involutive.
  - by rewrite blank_rev.
Qed.

Lemma rstrip_last s t c : rstrip s = t ++ [c] -> isspace c = false.
Proof.
  unfold rstrip. intros E.
  apply (f_equal (@rev _)) in E. rewrite rev_involutive, rev_app_distr in E.
  simpl in E. by apply lstrip_head in E.
Qed.

Lemma lstrip_snoc s c :
  lstrip (s ++ [c]) =
  match lstrip s with
  | [] => if isspace c then [] else [c]
  | t => t ++ [c]
  end.
Proof.
  induction s as [|d r IH]; simpl; [done|].
  destruct (isspace d); [exact IH | done].
Qed.

Lemma rstrip_cons c s :
  rstrip (c :: s) =
  match rstrip s with
  | [] => if isspace c then [] else [c]
  | t => c :: t
  end.
Proof.
  unfold rstrip. simpl rev at 2. rewrite lstrip_snoc.
  destruct (lstrip (rev s)) as [|d t] eqn:E; simpl.
  - by destruct (isspace c).
  - rewrite rev_app_distr. simpl.
    destruct (rev t ++ [d]) eqn:E'; [|done].
    by apply app_eq_nil in E' as [_ ?].
Qed.

Lemma strip_blank s : blank s = true -> strip s = [].
Proof. intros B. unfold strip. by rewrite lstrip_blank. Qed.

Lemma strip_nil_blank s : strip s = [] -> blank s = true.
Proof.
  unfold strip. intros E.
  destruct (lstrip_split s) as [pre [E1 B1]].
  destruct (rstrip_split (lstrip s)) as [post [E2 B2]].
  rewrite E in E2. simpl in E2.
  rewrite E1, E2, blank_app, B1, B2. done.
Qed.

Lemma strip_split s :
  exists pre post,
    s = pre ++ strip s ++ post /\ blank pre = true /\ blank post = true.
Proof.
  destruct (lstrip_split s) as [pre [E1 B1]].
  destruct (rstrip_split (lstrip s)) as [post [E2 B2]].
  exists pre, post. unfold strip. by rewrite <- E2, <- E1.
Qed.

Lemma strip_head s c r : strip s = c :: r -> isspace c = false.
Proof.
  unfold strip. destruct (lstrip s) as [|d t] eqn:E; [done|].
  pose proof (lstrip_head _ _ _ E) as Hd.
  rewrite rstrip_cons, Hd.
  destruct (rstrip t); intros [= <- _]; done.
Qed.

Lemma strip_last s t c : strip s = t ++ [c] -> isspace c = false.
Proof. unfold strip. apply rstrip_last. Qed.

Lemma elem_of_strip c s : c ∈ strip s -> c ∈ s.
Proof.
  intros H. destruct (strip_split s) as (pre & post & E & _).
  rewrite E. apply elem_of_app. right. apply elem_of_app. by left.
Qed.

Lemma elem_of_join c sep parts :
  c ∈ join sep parts -> c ∈ sep \/ exists p, p ∈ parts /\ c ∈ p.
Proof.
  induction parts as [|p [|q r] IH]; simpl.
  - by intros ?%elem_of_nil.
  - intros H. right. exists p. split; [left | done].
  - intros [H | [H | H]%elem_of_app]%elem_of_app.
    + right. exists p. split; [left | done].
    + by left.
    + destruct (IH H) as [? | (p' & Hp' & Hc)]; [by left|].
      right. exists p'. split; [by right | done].
Qed.

Lemma lstrip_nil s : lstrip s = [] -> blank s = true.
Proof.
  induction s as [|c r IH]; simpl; [done|].
  destruct (isspace c); [auto | discriminate].
Qed.

Lemma lstrip_app_blank pre s : blank pre = true -> lstrip (pre ++ s) = lstrip s.
Proof.
  induction pre as [|c r IH]; simpl; [done|].
  intros [Hc Hr]%andb_true_iff. rewrite Hc. auto.
Qed.

Lemma lstrip_app_nonblank s t :
  lstrip s <> [] -> lstrip (s ++ t) = lstrip s ++ t.
Proof.
  induction s as [|c r IH]; simpl; [done|].
  destruct (isspace c); [exact IH | done].
Qed.

Lemma rstrip_app_blank s post :
  blank post = true -> rstrip (s ++ post) = rstrip s.
Proof.
  intros B. unfold rstrip. rewrite rev_app_distr.
  rewrite lstrip_app_blank; [done | by rewrite blank_rev].
Qed.

Lemma strip_padding pre s post :
  blank pre = true -> blank post = true ->
  strip (pre ++ s ++ post) = strip s.
Proof.
  intros Bpre Bpost. unfold strip. rewrite (lstrip_app_blank _ _ Bpre).
  destruct (lstrip s) as [|c r] eqn:E.
  - apply lstrip_nil in E.
    rewrite lstrip_blank; [done|]. by rewrite blank_app, E, Bpost.
  - rewrite lstrip_app_nonblank by (by rewrite E).
    rewrite E. by apply rstrip_app_blank.
Qed.

Lemma join_nil_iff (parts : list str) :
  join [32] parts = [] <-> parts = [] \/ parts = [[]].
Proof.
  destruct parts as [|p [|q r]]; simpl.
  - split; [by left | done].
  - split; [intros ->; by right | by intros [|[= ->]]].
  - split; [by intros [_ ?]%app_eq_nil | by intros [|]].
Qed.

(** *** Facts about lines *)

Lemma concat_readlines s : concat (readlines s) = s.
Proof.
  induction s as [|c r IH]; simpl; [done|].
  destruct (c =? NL).
  - simpl. by rewrite IH.
  - destruct (readlines r) as [|l ls]; simpl in *; by rewrite <- IH.
Qed.

Lemma readlines_line t rest :
  NL ∉ t -> readlines (t ++ NL :: rest) = (t ++ [NL]) :: readlines rest.
Proof.
  induction t as [|c r IH]; simpl; intros Hnl; [done|].
  apply not_elem_of_cons in Hnl as [Hc Hr].
  destruct (N.eqb_spec c NL) as [->|_]; [done|].
  by rewrite (IH Hr).
Qed.

(** Newline-terminated texts without inner newline, written one after the
    other, are read back as they were written. *)
Lemma readlines_replies replies :
  Forall (fun t => NL ∉ t) replies ->
  readlines (concat (List.map (fun t => t ++ [NL]) replies)) =
  List.map (fun t => t ++ [NL]) replies.
Proof.
  induction 1 as [|t ts Ht _ IH]; simpl; [done|].
  rewrite <- app_assoc. simpl. by rewrite (readlines_line _ _ Ht), IH.
Qed.

Lemma newlines_app s t : newlines (s ++ t) = (newlines s + newlines t)%nat.
Proof. unfold newlines. by rewrite List.filter_app, length_app. Qed.

Lemma readlines_terminated_length s :
  length (readlines (s ++ [NL])) = S (newlines s).
Proof.
  induction s as [|c r IH]; [done|].
  change (newlines (c :: r))
    with (length (if N.eqb NL c then c :: List.filter (N.eqb NL) r
                  else List.filter (N.eqb NL) r)).
  simpl readlines. rewrite (N.eqb_sym NL c).
  destruct (c =? NL).
  - simpl. by rewrite IH.
  - destruct (readlines (r ++ [NL])) as [|l ls]; [done|]. exact IH.
Qed.

Lemma readlines_app_terminated t rest :
  readlines ((t ++ [NL]) ++ rest) = readlines (t ++ [NL]) ++ readlines rest.
Proof.
  induction t as [|c r IH]; [done|].
  simpl. destruct (c =? NL).
  - simpl in IH. by rewrite IH.
  - simpl in IH. rewrite IH.
    pose proof (readlines_terminated_length r) as Hlen.
    by destruct (readlines (r ++ [NL])) as [|l ls].
Qed.

Lemma readlines_replies_length replies :
  length (readlines (concat (List.map (fun t => t ++ [NL]) replies))) =
    newlines (concat (List.map (fun t => t ++ [NL]) replies))
  /\ (length replies
      <= length (readlines
                   (concat (List.map (fun t => t ++ [NL]) replies))))%nat.
Proof.
  induction replies as [|t ts [IHeq IHle]]; [done|].
  cbn [List.map concat].
  rewrite readlines_app_terminated, length_app, readlines_terminated_length.
  rewrite !newlines_app, IHeq. split.
  - change (newlines [NL]) with 1%nat. lia.
  - cbn [length]. lia.
Qed.

Lemma readlines_wf input :
  Forall
    (fun l => exists body, (NL ∉ body) /\ (l = body ++ [NL] \/ l = body))
    (readlines input).
Proof.
  induction input as [|c r IH]; [constructor|].
  simpl. destruct (N.eqb_spec c NL) as [->|Hc].
  - constructor; [|exact IH]. exists []. split; [apply not_elem_of_nil|].
    by left.
  - destruct (readlines r) as [|l ls].
    + constructor; [|constructor]. exists [c]. split; [|by right].
      intros Hin%list_elem_of_singleton. done.
    + apply Forall_cons in IH as [(body & Hnl & Hl) Hls].
      constructor; [|exact Hls]. exists (c :: body). split.
      * intros [?|?]%elem_of_cons; [done | by apply Hnl].
      * destruct Hl as [-> | ->]; [by left | by right].
Qed.

Lemma readlines_unterminated body c :
  c <> NL ->
  exists ls l,
    readlines (body ++ [c]) = ls ++ [l]
    /\ readlines (body ++ [c; NL]) = ls ++ [l ++ [NL]].
Proof.
  intros Hc. apply N.eqb_neq in Hc.
  induction body as [|d body (ls & l & E1 & E2)].
  - exists [], [c]. simpl. by rewrite Hc.
  - simpl. rewrite E1, E2. destruct (d =? NL).
    + by exists ([d] :: ls), l.
    + destruct ls as [|l0 ls'].
      * by exists [], (d :: l).
      * by exists ((d :: l0) :: ls'), l.
Qed.

(** *** Facts about encoding *)

Lemma can_encode_app s t : can_encode (s ++ t) = can_encode s && can_encode t.
Proof. apply forallb_app. Qed.

Lemma can_encode_strip t : can_encode t = true -> can_encode (strip t) = true.
Proof.
  intros H. destruct (strip_split t) as (pre & post & E & _).
  rewrite E, !can_encode_app in H.
  apply andb_true_iff in H as [_ H]. by apply andb_true_iff in H as [H _].
Qed.

Lemma can_encode_join texts :
  Forall (fun t => can_encode t = true) texts ->
  can_encode (join (lit " ") texts) = true.
Proof.
  induction 1 as [|t ts Ht Hts IH]; [done|].
  destruct ts as [|u us]; [done|].
  change (join (lit " ") (t :: u :: us))
    with (t ++ lit " " ++ join (lit " ") (u :: us)).
  by rewrite !can_encode_app, Ht, IH.
Qed.

(** *** Equations of the program *)

Lemma stripped_texts_yields segs :
  stripped_texts (yields segs) = Ok (List.map (fun s => strip (text s)) segs).
Proof. induction segs as [|x r IH]; simpl; [done | by rewrite IH]. Qed.

Lemma stripped_texts_interrupt g b :
  stripped_texts g = Interrupt b -> aborts g = true.
Proof.
  induction g as [|x rest IH|e|b']; simpl; try done.
  destruct (stripped_texts rest); try done; intros [= <-]; by apply IH.
Qed.

Lemma stripped_texts_single_line g texts :
  stripped_texts g = Ok texts ->
  Forall (fun t => NL ∉ t) (texts_of g) ->
  Forall (fun t => NL ∉ t) texts.
Proof.
  revert texts. induction g as [|x rest IH|e|b]; simpl; intros texts.
  - intros [= <-] _. constructor.
  - destruct (stripped_texts rest) as [ts|e|b]; [|done|done].
    intros [= <-] [Hx Hrest]%Forall_cons. constructor; [|by apply IH].
    intros Hnl. by apply Hx, elem_of_strip.
  - done.
  - done.
Qed.

Lemma stripped_texts_encodable g texts :
  stripped_texts g = Ok texts ->
  Forall (fun t => can_encode t = true) (texts_of g) ->
  Forall (fun t => can_encode t = true) texts.
Proof.
  revert texts. induction g as [|x rest IH|e|b]; simpl; intros texts.
  - intros [= <-] _. constructor.
  - destruct (stripped_texts rest) as [ts|e|b]; [|done|done].
    intros [= <-] [Hx Hrest]%Forall_cons. constructor; [|by apply IH].
    by apply can_encode_strip.
  - done.
  - done.
Qed.

Lemma join_single_line texts :
  Forall (fun t => NL ∉ t) texts -> NL ∉ join (lit " ") texts.
Proof.
  intros Hall [Hsep | (p & Hp & Hnl)]%elem_of_join.
  - by apply list_elem_of_singleton in Hsep.
  - rewrite Forall_forall in Hall. by apply (Hall p Hp).
Qed.

Lemma is_empty_false (p : str) : p <> [] -> is_empty p = false.
Proof. by destruct p. Qed.

Lemma handle_line_blank model line s :
  strip line = [] ->
  handle_line model line s =
  {| events := [Stdout [NL]; Flush]; final := s; outcome := Ok tt |}.
Proof. intros H. unfold handle_line. by rewrite H. Qed.

Lemma handle_line_raises model line s e w :
  strip line <> [] ->
  transcribe model (strip line) kwargs (world s) = (Raise e, w) ->
  handle_line model line s =
  {| events := [Transcribe model (strip line) kwargs;
                Stderr ((lit "Error: " ++ message e) ++ [NL]);
                Stdout [NL]; Flush];
     final := set_world s w; outcome := Ok tt |}.
Proof.
  intros H T. unfold handle_line.
  cbv zeta. rewrite (is_empty_false _ H).
  unfold mbind, prog_bind, try_except, model_transcribe. by rewrite T.
Qed.

Lemma handle_line_throws model line s g e w :
  strip line <> [] ->
  transcribe model (strip line) kwargs (world s) = (Ok g, w) ->
  stripped_texts g = Raise e ->
  handle_line model line s =
  {| events := [Transcribe model (strip line) kwargs;
                Stderr ((lit "Error: " ++ message e) ++ [NL]);
                Stdout [NL]; Flush];
     final := set_world s w; outcome := Ok tt |}.
Proof.
  intros H T G. unfold handle_line.
  cbv zeta. rewrite (is_empty_false _ H).
  unfold mbind, prog_bind, try_except, model_transcribe, lift_result.
  rewrite T. simpl. by rewrite G.
Qed.

Lemma handle_line_interrupted model line s b w :
  strip line <> [] ->
  transcribe model (strip line) kwargs (world s) = (Interrupt b, w) ->
  handle_line model line s =
  {| events := [Transcribe model (strip line) kwargs];
     final := set_world s w; outcome := Interrupt b |}.
Proof.
  intros H T. unfold handle_line.
  cbv zeta. rewrite (is_empty_false _ H).
  unfold mbind, prog_bind, try_except, model_transcribe. by rewrite T.
Qed.

Lemma handle_line_aborted model line s g b w :
  strip line <> [] ->
  transcribe model (strip line) kwargs (world s) = (Ok g, w) ->
  stripped_texts g = Interrupt b ->
  handle_line model line s =
  {| events := [Transcribe model (strip line) kwargs];
     final := set_world s w; outcome := Interrupt b |}.
Proof.
  intros H T G. unfold handle_line.
  cbv zeta. rewrite (is_empty_false _ H).
  unfold mbind, prog_bind, try_except, model_transcribe, lift_result.
  rewrite T. simpl. by rewrite G.
Qed.

Lemma handle_line_returns model line s g texts w :
  strip line <> [] ->
  transcribe model (strip line) kwargs (world s) = (Ok g, w) ->
  stripped_texts g = Ok texts ->
  can_encode (join (lit " ") texts ++ [NL]) = true ->
  handle_line model line s =
  {| events := [Transcribe model (strip line) kwargs;
                Stdout (join (lit " ") texts ++ [NL]); Flush];
     final := set_world s w; outcome := Ok tt |}.
Proof.
  intros H T G E. unfold handle_line.
  cbv zeta. rewrite (is_empty_false _ H).
  unfold mbind, prog_bind, try_except, model_transcribe, lift_result,
    stdout_write.
  rewrite T. simpl. rewrite G. simpl. by rewrite E.
Qed.

Lemma handle_line_unencodable model line s g texts w :
  strip line <> [] ->
  transcribe model (strip line) kwargs (world s) = (Ok g, w) ->
  stripped_texts g = Ok texts ->
  can_encode (join (lit " ") texts ++ [NL]) = false ->
  handle_line model line s =
  {| events := [Transcribe model (strip line) kwargs];
     final := set_world s w; outcome := Raise UnicodeEncodeError |}.
Proof.
  intros H T G E. unfold handle_line.
  cbv zeta. rewrite (is_empty_false _ H).
  unfold mbind, prog_bind, try_except, model_transcribe, lift_result,
    stdout_write.
  rewrite T. simpl. rewrite G. simpl. by rewrite E.
Qed.

(** The ways the handling of a non-blank line can go: the call returns
    and the segments are iterated to the end, with a text that can be
    written or not; the iteration raises or is interrupted; the call
    raises or is interrupted. *)
Ltac library_cases model line s Hne :=
  let g := fresh "g" in
  let e := fresh "e" in
  let b := fresh "b" in
  let w := fresh "w" in
  let texts := fresh "texts" in
  let T := fresh "T" in
  let G := fresh "G" in
  let E := fresh "E" in
  destruct (transcribe model (strip line) kwargs (world s))
    as [[g|e|b] w] eqn:T;
  [ destruct (stripped_texts g) as [texts|e|b] eqn:G;
    [ destruct (can_encode (join (lit " ") texts ++ [NL])) eqn:E;
      [ rewrite (handle_line_returns _ _ _ _ _ _ Hne T G E)
      | rewrite (handle_line_unencodable _ _ _ _ _ _ Hne T G E) ]
    | rewrite (handle_line_throws _ _ _ _ _ _ Hne T G)
    | rewrite (handle_line_aborted _ _ _ _ _ _ Hne T G) ]
  | rewrite (handle_line_raises _ _ _ _ _ Hne T)
  | rewrite (handle_line_interrupted _ _ _ _ _ Hne T) ].

(** Whatever the line and whatever the library does, the body of the loop
    first emits nothing on the protocol streams, constructs no model and
    calls [transcribe] at most once, on [model] and on the stripped line.
    It then either writes one newline-terminated text to standard output,
    flushes it and returns, or raises without having written. The text
    holds no newline when the texts of the library hold none. *)
Lemma handle_line_shape model line s :
  exists tr s',
    before_reply model line tr
    /\ ((exists text,
           handle_line model line s =
           {| events := tr ++ [Stdout (text ++ [NL]); Flush];
              final := s'; outcome := Ok tt |}
           /\ (single_line_texts -> NL ∉ text))
        \/ (exists o,
              o <> Ok tt
              /\ handle_line model line s =
                 {| events := tr; final := s'; outcome := o |})).
Proof.
  unfold before_reply, call_for.
  destruct (strip line) as [|c p] eqn:E.
  - exists [], s. split; [by repeat split|]. left. exists [].
    rewrite handle_line_blank by done.
    split; [done|]. intros _. apply not_elem_of_nil.
  - assert (strip line <> []) as Hne by (by rewrite E).
    rewrite <- E, (is_empty_false _ Hne). clear E.
    library_cases model line s Hne.
    + exists [Transcribe model (strip line) kwargs], (set_world s w).
      split; [by repeat split; repeat constructor|].
      left. exists (join (lit " ") texts). split; [done|].
      intros Hsingle. apply join_single_line.
      apply (stripped_texts_single_line g); [done|]. by eapply Hsingle.
    + exists [Transcribe model (strip line) kwargs], (set_world s w).
      split; [by repeat split; repeat constructor|].
      right. eexists. split; [|reflexivity]; done.
    + exists [Transcribe model (strip line) kwargs;
              Stderr ((lit "Error: " ++ message e) ++ [NL])], (set_world s w).
      split; [by repeat split; repeat constructor|].
      left. exists []. split; [done|]. intros _. apply not_elem_of_nil.
    + exists [Transcribe model (strip line) kwargs], (set_world s w).
      split; [by repeat split; repeat constructor|].
      right. eexists. split; [|reflexivity]; done.
    + exists [Transcribe model (strip line) kwargs;
              Stderr ((lit "Error: " ++ message e) ++ [NL])], (set_world s w).
      split; [by repeat split; repeat constructor|].
      left. exists []. split; [done|]. intros _. apply not_elem_of_nil.
    + exists [Transcribe model (strip line) kwargs], (set_world s w).
      split; [by repeat split; repeat constructor|].
      right. eexists. split; [|reflexivity]; done.
Qed.

(** With a library that raises nothing but instances of [Exception] and
    returns texts that can be encoded, the body of the loop always writes
    its reply and returns. *)
Lemma handle_line_replies model line s :
  raises_exceptions_only ->
  encodable_texts ->
  exists tr text s',
    before_reply model line tr
    /\ handle_line model line s =
       {| events := tr ++ [Stdout (text ++ [NL]); Flush];
          final := s'; outcome := Ok tt |}
    /\ (single_line_texts -> NL ∉ text).
Proof.
  intros Hexc Henc. unfold before_reply, call_for.
  destruct (strip line) as [|c p] eqn:E.
  - exists [], [], s. rewrite handle_line_blank by done.
    split; [by repeat split|]. split; [done|].
    intros _. apply not_elem_of_nil.
  - assert (strip line <> []) as Hne by (by rewrite E).
    rewrite <- E, (is_empty_false _ Hne). clear E.
    pose proof (Hexc model (strip line) kwargs (world s)) as Hcall.
    library_cases model line s Hne; simpl in Hcall.
    + exists [Transcribe model (strip line) kwargs], (join (lit " ") texts),
        (set_world s w).
      split; [by repeat split; repeat constructor|]. split; [done|].
      intros Hsingle. apply join_single_line.
      apply (stripped_texts_single_line g); [done|]. by eapply Hsingle.
    + exfalso. rewrite can_encode_app, can_encode_join in E; [done|].
      apply (stripped_texts_encodable g); [done|]. by eapply Henc.
    + exists [Transcribe model (strip line) kwargs;
              Stderr ((lit "Error: " ++ message e) ++ [NL])], [],
        (set_world s w).
      split; [by repeat split; repeat constructor|]. split; [done|].
      intros _. apply not_elem_of_nil.
    + apply stripped_texts_interrupt in G. congruence.
    + exists [Transcribe model (strip line) kwargs;
              Stderr ((lit "Error: " ++ message e) ++ [NL])], [],
        (set_world s w).
      split; [by repeat split; repeat constructor|]. split; [done|].
      intros _. apply not_elem_of_nil.
    + done.
Qed.

(** The machine a line leaves: untouched for a blank line, and otherwise
    the world the call of [transcribe] left, whether it returned or
    raised. *)
Lemma handle_line_final model line s :
  final (handle_line model line s) =
  if is_empty (strip line) then s
  else set_world s (transcribe model (strip line) kwargs (world s)).2.
Proof.
  destruct (strip line) as [|c p] eqn:E.
  - by rewrite handle_line_blank.
  - assert (strip line <> []) as Hne by (by rewrite E).
    rewrite <- E, (is_empty_false _ Hne). clear E.
    library_cases model line s Hne; done.
Qed.


Lemma request_loop_cons model line rest s :
  request_loop model (line :: rest) s =
  let r := handle_line model line s in
  match outcome r with
  | Ok _ =>
      let r' := request_loop model rest (final r) in
      {| events := ReadLine line :: events r ++ events r';
         final := final r'; outcome := outcome r' |}
  | Raise e =>
      {| events := ReadLine line :: events r;
         final := final r; outcome := Raise e |}
  | Interrupt b =>
      {| events := ReadLine line :: events r;
         final := final r; outcome := Interrupt b |}
  end.
Proof.
  unfold request_loop. simpl for_line_in.
  unfold mbind, prog_bind, emit. simpl.
  by destruct (outcome (handle_line model line s)).
Qed.

(** What a line adds to the run of the loop when its handling returns. *)
Lemma request_loop_cons_ok model line rest s tr s' :
  handle_line model line s =
    {| events := tr; final := s'; outcome := Ok tt |} ->
  request_loop model (line :: rest) s =
  {| events := ReadLine line :: tr ++ events (request_loop model rest s');
     final := final (request_loop model rest s');
     outcome := outcome (request_loop model rest s') |}.
Proof. intros H. by rewrite request_loop_cons, H. Qed.

(** What a line adds when its handling raises: the loop ends there. *)
Lemma request_loop_cons_stop model line rest s tr s' o :
  o <> Ok tt ->
  handle_line model line s = {| events := tr; final := s'; outcome := o |} ->
  request_loop model (line :: rest) s =
  {| events := ReadLine line :: tr; final := s'; outcome := o |}.
Proof.
  intros Ho H. rewrite request_loop_cons, H. simpl.
  destruct o as [[]|e|b]; done.
Qed.

Lemma io_of_app tr1 tr2 : io_of (tr1 ++ tr2) = io_of tr1 ++ io_of tr2.
Proof. apply List.filter_app. Qed.

Lemma stdout_of_app tr1 tr2 :
  stdout_of (tr1 ++ tr2) = stdout_of tr1 ++ stdout_of tr2.
Proof. apply omap_app. Qed.

Lemma stderr_of_app tr1 tr2 :
  stderr_of (tr1 ++ tr2) = stderr_of tr1 ++ stderr_of tr2.
Proof. apply omap_app. Qed.

Lemma models_used_app tr1 tr2 :
  models_used (tr1 ++ tr2) = models_used tr1 ++ models_used tr2.
Proof. apply omap_app. Qed.

Lemma loads_of_app tr1 tr2 :
  loads_of (tr1 ++ tr2) = loads_of tr1 ++ loads_of tr2.
Proof. apply omap_app. Qed.

Lemma protocol_of_app tr1 tr2 :
  protocol_of (tr1 ++ tr2) = protocol_of tr1 ++ protocol_of tr2.
Proof. apply List.filter_app. Qed.

Lemma kwargs_used_app tr1 tr2 :
  kwargs_used (tr1 ++ tr2) = kwargs_used tr1 ++ kwargs_used tr2.
Proof. apply omap_app. Qed.

Lemma paths_transcribed_app tr1 tr2 :
  paths_transcribed (tr1 ++ tr2) =
  paths_transcribed tr1 ++ paths_transcribed tr2.
Proof. apply omap_app. Qed.

Lemma stdout_of_io tr : stdout_of (io_of tr) = stdout_of tr.
Proof.
  induction tr as [|e tr IH]; [done|].
  destruct e; simpl; by rewrite ?IH.
Qed.

Lemma paths_of_protocol tr :
  paths_transcribed (protocol_of tr) = paths_transcribed tr.
Proof.
  induction tr as [|e tr IH]; [done|].
  destruct e; simpl; by rewrite ?IH.
Qed.

Lemma kwargs_of_protocol tr : kwargs_used (protocol_of tr) = kwargs_used tr.
Proof.
  induction tr as [|e tr IH]; [done|].
  destruct e; simpl; by rewrite ?IH.
Qed.

Lemma stdout_of_exchanges stdin replies :
  length replies = length stdin ->
  stdout_of (concat (zip_with exchange stdin replies)) =
  List.map (fun t => t ++ [NL]) replies.
Proof.
  revert replies. induction stdin as [|line rest IH]; intros [|t ts] Hlen;
    try done.
  simpl. f_equal. apply IH. simpl in Hlen. lia.
Qed.

(** A property of traces that holds of the empty trace, of the read of a
    line and of what the handling of a line emits, and that is kept when
    traces follow each other, holds of the trace of the loop. *)
Lemma request_loop_events_ind (P : list (event Model) -> Prop) model :
  P [] ->
  (forall tr1 tr2, P tr1 -> P tr2 -> P (tr1 ++ tr2)) ->
  (forall line, P [ReadLine line]) ->
  (forall line s, P (events (handle_line model line s))) ->
  forall stdin s, P (events (request_loop model stdin s)).
Proof.
  intros Hnil Happ Hread Hbody stdin.
  induction stdin as [|line rest IH]; intros s; [done|].
  rewrite request_loop_cons. cbv zeta.
  destruct (outcome (handle_line model line s)); cbn [events];
    change (ReadLine line :: ?l) with ([ReadLine line] ++ l); auto.
Qed.

Lemma before_reply_quiet model line tr :
  before_reply model line tr ->
  stdout_of tr = [] /\ loads_of tr = []
  /\ Forall (fun m => m = model) (models_used tr)
  /\ Forall (fun kw => kw = kwargs) (kwargs_used tr).
Proof.
  intros (Hio & Hl & Hp & Hm).
  split; [by rewrite <- stdout_of_io, Hio|]. split; [done|]. split; [done|].
  rewrite <- kwargs_of_protocol, Hp. unfold call_for.
  destruct (is_empty (strip line)); by repeat constructor.
Qed.

(** In the trace of a line every call of the library is on [model] and
    with the fixed options, and no model is constructed. *)
Lemma handle_line_calls model line s :
  loads_of (events (handle_line model line s)) = []
  /\ Forall (fun m => m = model)
       (models_used (events (handle_line model line s)))
  /\ Forall (fun kw => kw = kwargs)
       (kwargs_used (events (handle_line model line s))).
Proof.
  destruct (handle_line_shape model line s)
    as (tr & s' & Hq & [(text & -> & _) | (o & _ & ->)]);
    destruct (before_reply_quiet _ _ _ Hq) as (_ & Hl & Hm & Hk);
    cbn [events];
    rewrite ?loads_of_app, ?models_used_app, ?kwargs_used_app, ?Hl;
    simpl; rewrite ?app_nil_r; done.
Qed.

(** The loop constructs no model and calls [transcribe] on [model] only,
    with the fixed options. *)
Lemma request_loop_model model stdin s :
  Forall (fun m => m = model)
    (models_used (events (request_loop model stdin s)))
  /\ loads_of (events (request_loop model stdin s)) = []
  /\ Forall (fun kw => kw = kwargs)
       (kwargs_used (events (request_loop model stdin s))).
Proof.
  revert stdin s.
  apply (request_loop_events_ind
           (fun tr => Forall (fun m => m = model) (models_used tr)
                      /\ loads_of tr = []
                      /\ Forall (fun kw => kw = kwargs) (kwargs_used tr))).
  - by repeat split.
  - intros tr1 tr2 (Hm1 & Hl1 & Hk1) (Hm2 & Hl2 & Hk2).
    rewrite models_used_app, loads_of_app, kwargs_used_app, Hl1, Hl2.
    repeat split; try done; by apply Forall_app.
  - intros line. by repeat split.
  - intros line s. by destruct (handle_line_calls model line s) as (? & ? & ?).
Qed.

Lemma startup_ok s model w :
  WhisperModel (model_name s) (lit "cpu") (lit "int8") (world s)
    = (Ok model, w) ->
  startup s =
  {| events := [Stderr (loading_message (model_name s));
                LoadModel (model_name s) (lit "cpu") (lit "int8");
                Stderr (lit "Model ready." ++ [NL]);
                Stdout READY; Flush];
     final := loaded s w; outcome := Ok model |}.
Proof.
  intros H. unfold startup, mbind, prog_bind, new_WhisperModel. simpl.
  fold (model_name s). by rewrite H.
Qed.

Lemma startup_raises s e w :
  WhisperModel (model_name s) (lit "cpu") (lit "int8") (world s)
    = (Raise e, w) ->
  startup s =
  {| events := [Stderr (loading_message (model_name s));
                LoadModel (model_name s) (lit "cpu") (lit "int8")];
     final := loaded s w; outcome := Raise e |}.
Proof.
  intros H. unfold startup, mbind, prog_bind, new_WhisperModel. simpl.
  fold (model_name s). by rewrite H.
Qed.

Lemma startup_interrupted s b w :
  WhisperModel (model_name s) (lit "cpu") (lit "int8") (world s)
    = (Interrupt b, w) ->
  startup s =
  {| events := [Stderr (loading_message (model_name s));
                LoadModel (model_name s) (lit "cpu") (lit "int8")];
     final := loaded s w; outcome := Interrupt b |}.
Proof.
  intros H. unfold startup, mbind, prog_bind, new_WhisperModel. simpl.
  fold (model_name s). by rewrite H.
Qed.

Lemma main_ok stdin s model w :
  WhisperModel (model_name s) (lit "cpu") (lit "int8") (world s)
    = (Ok model, w) ->
  main stdin s =
  let r := request_loop model stdin (loaded s w) in
  {| events := [Stderr (loading_message (model_name s));
                LoadModel (model_name s) (lit "cpu") (lit "int8");
                Stderr (lit "Model ready." ++ [NL]);
                Stdout READY; Flush] ++ events r;
     final := final r; outcome := outcome r |}.
Proof.
  intros H. unfold main, mbind, prog_bind at 1.
  by rewrite (startup_ok _ _ _ H).
Qed.

Lemma main_raises stdin s e w :
  WhisperModel (model_name s) (lit "cpu") (lit "int8") (world s)
    = (Raise e, w) ->
  main stdin s =
  {| events := [Stderr (loading_message (model_name s));
                LoadModel (model_name s) (lit "cpu") (lit "int8")];
     final := loaded s w; outcome := Raise e |}.
Proof.
  intros H. unfold main, mbind, prog_bind at 1.
  by rewrite (startup_raises _ _ _ H).
Qed.

Lemma main_interrupted stdin s b w :
  WhisperModel (model_name s) (lit "cpu") (lit "int8") (world s)
    = (Interrupt b, w) ->
  main stdin s =
  {| events := [Stderr (loading_message (model_name s));
                LoadModel (model_name s) (lit "cpu") (lit "int8")];
     final := loaded s w; outcome := Interrupt b |}.
Proof.
  intros H. unfold main, mbind, prog_bind at 1.
  by rewrite (startup_interrupted _ _ _ H).
Qed.

(** The three ways the startup code can go. *)
Ltac startup_cases stdin s :=
  let model := fresh "model" in
  let e := fresh "e" in
  let b := fresh "b" in
  let w := fresh "w" in
  let H := fresh "H" in
  destruct (WhisperModel (model_name s) (lit "cpu") (lit "int8") (world s))
    as [[model|e|b] w] eqn:H;
  [ rewrite (main_ok stdin _ _ _ H)
  | rewrite (main_raises stdin _ _ _ H)
  | rewrite (main_interrupted stdin _ _ _ H) ].

(** With a library that raises nothing but instances of [Exception] and
    whose texts can be encoded, the loop on the protocol streams: read,
    write, flush, once per line; with the calls of the library: read,
    call, write, flush. *)
Lemma request_loop_io model stdin s :
  raises_exceptions_only ->
  encodable_texts ->
  exists replies : list str,
    length replies = length stdin
    /\ io_of (events (request_loop model stdin s)) =
       concat (zip_with exchange stdin replies)
    /\ (single_line_texts -> Forall (fun t => NL ∉ t) replies)
    /\ protocol_of (events (request_loop model stdin s)) =
       concat (zip_with (round model) stdin replies).
Proof.
  intros Hexc Henc. revert s. induction stdin as [|line rest IH]; intros s.
  - exists []. repeat split. by constructor.
  - destruct (handle_line_replies model line s Hexc Henc)
      as (tr & reply & s' & (Hio & _ & Hcall & _) & Hbody & Hnl).
    rewrite (request_loop_cons_ok _ _ _ _ _ _ Hbody).
    destruct (IH s') as (replies & Hlen & Hrest & Hnls & Hrounds).
    exists (reply :: replies). split; [simpl; by rewrite Hlen|].
    cbn [events]. change (ReadLine line :: ?l) with ([ReadLine line] ++ l).
    rewrite !io_of_app, !protocol_of_app, Hio, Hrest, Hcall, Hrounds.
    split; [done|]. split.
    + intros Hsingle. constructor; auto.
    + simpl. unfold round. simpl. by rewrite <- app_assoc.
Qed.



(** Whatever the library and the streams do, the loop writes one
    newline-terminated text for each line it has handled, handles the
    lines in their order and calls the library on their paths; it has
    handled all of them when it returns. *)
Lemma request_loop_trace model stdin s :
  exists replies rest,
    (length replies <= length stdin)%nat
    /\ stdout_of (events (request_loop model stdin s)) =
       List.map (fun t => t ++ [NL]) replies
    /\ requested_paths stdin =
       paths_transcribed (events (request_loop model stdin s)) ++ rest
    /\ (outcome (request_loop model stdin s) = Ok tt ->
        length replies = length stdin /\ rest = []).
Proof.
  revert s. induction stdin as [|line rest IH]; intros s.
  - by exists [], [].
  - change (requested_paths (line :: rest))
      with (if negb (is_empty (strip line))
            then strip line :: requested_paths rest
            else requested_paths rest).
    assert (forall tr, before_reply model line tr ->
              paths_transcribed tr =
              if negb (is_empty (strip line)) then [strip line] else [])
      as Hpaths.
    { intros tr (_ & _ & Hp & _). rewrite <- paths_of_protocol, Hp.
      unfold call_for. by destruct (is_empty (strip line)). }
    destruct (handle_line_shape model line s)
      as (tr & s' & Hq & [(text & Hbody & _) | (o & Ho & Hbody)]).
    + rewrite (request_loop_cons_ok _ _ _ _ _ _ Hbody). cbn [events outcome].
      destruct (IH s') as (replies & more & Hlen & Hout & Hreq & Hok).
      exists (text :: replies), more.
      change (ReadLine line :: ?l) with ([ReadLine line] ++ l).
      rewrite !stdout_of_app, !paths_transcribed_app, Hout, (Hpaths _ Hq).
      destruct (before_reply_quiet _ _ _ Hq) as (-> & _).
      rewrite Hreq. repeat split.
      * simpl. lia.
      * by destruct (negb (is_empty (strip line))).
      * simpl. f_equal. by apply Hok.
      * by apply Hok.
    + rewrite (request_loop_cons_stop _ _ _ _ _ _ _ Ho Hbody).
      cbn [events outcome].
      exists [], (requested_paths rest).
      change (ReadLine line :: ?l) with ([ReadLine line] ++ l).
      rewrite !stdout_of_app, !paths_transcribed_app, (Hpaths _ Hq).
      destruct (before_reply_quiet _ _ _ Hq) as (-> & _).
      repeat split; try done.
      * simpl. lia.
      * by destruct (negb (is_empty (strip line))).
Qed.


(** ** The protocol *)

(** C1, amended. For every sequence of input lines, when the library
    raises nothing but instances of [Exception] and returns segment texts
    that hold no newline and that standard output can encode, the request
    loop answers each line once and in order. Leaving the diagnostics of
    the error stream aside, its trace is, for each line in turn: the read
    of that line, the call of the library on the path of that line (no
    call for a line that is empty once stripped), one write of a
    newline-terminated reply and a flush. Read line by line, standard
    output holds these writes, one line each: as many lines as input
    lines. *)
Theorem request_loop_one_reply_per_line model (stdin : list str) s :
  raises_exceptions_only ->
  encodable_texts ->
  single_line_texts ->
  exists replies : list str,
    length replies = length stdin
    /\ protocol_of (events (request_loop model stdin s)) =
       concat (zip_with (round model) stdin replies)
    /\ io_of (events (request_loop model stdin s)) =
       concat (zip_with exchange stdin replies)
    /\ stdout_of (events (request_loop model stdin s)) =
       List.map (fun t => t ++ [NL]) replies
    /\ readlines (concat (stdout_of (events (request_loop model stdin s)))) =
       List.map (fun t => t ++ [NL]) replies
    /\ length
         (readlines (concat (stdout_of (events (request_loop model stdin s)))))
       = length stdin.
Proof.
  intros Hexc Henc Hsingle.
  destruct (request_loop_io model stdin s Hexc Henc)
    as (replies & Hlen & Hio & Hnl & Hrounds).
  assert (stdout_of (events (request_loop model stdin s)) =
          List.map (fun t => t ++ [NL]) replies) as Hout.
  { by rewrite <- stdout_of_io, Hio, stdout_of_exchanges. }
  exists replies. rewrite Hout, (readlines_replies _ (Hnl Hsingle)).
  repeat split; try done. by rewrite length_map.
Qed.



(** C4. A line that is empty once stripped is answered by a blank line:
    the iteration writes a newline to standard output, flushes, calls
    nothing in the library and changes nothing, and the loop goes on with
    the next line. *)
Theorem blank_line_yields_blank_line model line rest s :
  strip line = [] ->
  handle_line model line s =
    {| events := [Stdout [NL]; Flush]; final := s; outcome := Ok tt |}
  /\ paths_transcribed (events (handle_line model line s)) = []
  /\ request_loop model (line :: rest) s =
     {| events := ReadLine line :: Stdout [NL] :: Flush
                  :: events (request_loop model rest s);
        final := final (request_loop model rest s);
        outcome := outcome (request_loop model rest s) |}.
Proof.
  intros H. pose proof (handle_line_blank model line s H) as Hbody.
  rewrite (request_loop_cons_ok _ _ _ _ _ _ Hbody).
  by rewrite (handle_line_blank _ _ _ H).
Qed.

(** C5, amended. When [transcribe] returns and its segments are iterated
    to the end, the reply is the texts of the segments, each stripped,
    joined by one space, followed by the newline; with no segment it is
    the empty line. It is written and flushed when standard output can
    encode it, and nothing is printed on the error stream. When standard
    output cannot encode it, the write raises outside the handler:
    nothing is written and the iteration ends with that exception. *)
Theorem transcript_is_joined_stripped_texts model line s segs w :
  strip line <> [] ->
  transcribe model (strip line) kwargs (world s) = (Ok (yields segs), w) ->
  handle_line model line s =
    (if can_encode
          (join [32] (List.map (fun x => strip (text x)) segs) ++ [NL])
     then
       {| events := [Transcribe model (strip line) kwargs;
                     Stdout
                       (join [32] (List.map (fun x => strip (text x)) segs)
                        ++ [NL]);
                     Flush];
          final := set_world s w; outcome := Ok tt |}
     else
       {| events := [Transcribe model (strip line) kwargs];
          final := set_world s w; outcome := Raise UnicodeEncodeError |})
  /\ (segs = [] ->
      stdout_of (events (handle_line model line s)) = [[NL]]).
Proof.
  intros Hne T.
  pose proof (stripped_texts_yields segs) as G.
  assert (handle_line model line s =
    (if can_encode
          (join [32] (List.map (fun x => strip (text x)) segs) ++ [NL])
     then
       {| events := [Transcribe model (strip line) kwargs;
                     Stdout
                       (join [32] (List.map (fun x => strip (text x)) segs)
                        ++ [NL]);
                     Flush];
          final := set_world s w; outcome := Ok tt |}
     else
       {| events := [Transcribe model (strip line) kwargs];
          final := set_world s w; outcome := Raise UnicodeEncodeError |}))
    as Hbody.
  { destruct (can_encode
                (join [32] (List.map (fun x => strip (text x)) segs) ++ [NL]))
      eqn:E.
    - by rewrite (handle_line_returns _ _ _ _ _ _ Hne T G E).
    - by rewrite (handle_line_unencodable _ _ _ _ _ _ Hne T G E). }
  split; [exact Hbody|].
  intros ->. by rewrite Hbody.
Qed.

(** C6. The name given to the model constructor is the value of
    [WHISPER_MODEL] in the environment, whatever string that is, and
    [small] when the variable is not set. *)
Theorem model_name_from_environment stdin s :
  let name :=
    match environ s !! lit "WHISPER_MODEL" with
    | Some value => value
    | None => lit "small"
    end in
  loads_of (events (main stdin s)) = [(name, lit "cpu", lit "int8")]
  /\ exists rest,
       events (main stdin s) =
       Stderr (loading_message name)
       :: LoadModel name (lit "cpu") (lit "int8") :: rest.
Proof.
  assert (match environ s !! lit "WHISPER_MODEL" with
          | Some value => value
          | None => lit "small"
          end = model_name s) as ->.
  { unfold model_name. by destruct (environ s !! lit "WHISPER_MODEL"). }
  cbv zeta.
  startup_cases stdin s; cbn [events].
  - split.
    + rewrite loads_of_app.
      destruct (request_loop_model model stdin (loaded s w)) as (_ & -> & _).
      done.
    + by eexists.
  - split; [done|]. by eexists.
  - split; [done|]. by eexists.
Qed.



(** C9. In every execution the model constructor is called once, by the
    startup code and before any call of [transcribe]; every call of
    [transcribe] is made on the model that this construction returned,
    and the request loop, whatever its model and its input, constructs no
    model and calls [transcribe] on its own model only. *)
Theorem model_loaded_once_and_shared stdin s :
  loads_of (events (main stdin s)) =
    [(model_name s, lit "cpu", lit "int8")]
  /\ (forall m,
        In m (models_used (events (main stdin s))) ->
        (WhisperModel (model_name s) (lit "cpu") (lit "int8") (world s)).1
        = Ok m)
  /\ (exists pre post,
        events (main stdin s) = pre ++ post
        /\ loads_of pre = [(model_name s, lit "cpu", lit "int8")]
        /\ models_used pre = []
        /\ loads_of post = [])
  /\ (forall model lines s',
        loads_of (events (request_loop model lines s')) = []
        /\ Forall (fun m => m = model)
             (models_used (events (request_loop model lines s')))).
Proof.
  assert (forall model lines s',
        loads_of (events (request_loop model lines s')) = []
        /\ Forall (fun m => m = model)
             (models_used (events (request_loop model lines s')))) as Hloop.
  { intros model lines s'.
    by destruct (request_loop_model model lines s') as (? & ? & _). }
  startup_cases stdin s; cbn [events].
  - destruct (Hloop model stdin (loaded s w)) as [Hl Hm].
    rewrite loads_of_app, models_used_app, Hl.
    split; [done|]. split; [|split; [|exact Hloop]].
    + intros m Hin. simpl in *. rewrite Forall_forall in Hm.
      f_equal. symmetry. apply Hm. by apply list_elem_of_In.
    + by eexists _, _.
  - split; [done|]. split; [|split; [|exact Hloop]].
    + by intros m [].
    + by exists [Stderr (loading_message (model_name s));
                 LoadModel (model_name s) (lit "cpu") (lit "int8")], [].
  - split; [done|]. split; [|split; [|exact Hloop]].
    + by intros m [].
    + by exists [Stderr (loading_message (model_name s));
                 LoadModel (model_name s) (lit "cpu") (lit "int8")], [].
Qed.

(** C10. A line of whitespace only is handled as the empty line is: its
    stripped form is empty, [transcribe] is not called and a blank line
    is written. For any other line the path given to [transcribe] is the
    line without its leading and trailing whitespace: the line is that
    path between two runs of whitespace, and the path neither starts nor
    ends with a whitespace character. *)
Theorem whitespace_is_stripped model line s :
  if blank line then
    strip line = []
    /\ handle_line model line s =
       {| events := [Stdout [NL]; Flush]; final := s; outcome := Ok tt |}
  else
    (exists rest,
       events (handle_line model line s) =
       Transcribe model (strip line) kwargs :: rest)
    /\ paths_transcribed (events (handle_line model line s)) = [strip line]
    /\ (exists pre post,
          line = pre ++ strip line ++ post
          /\ blank pre = true /\ blank post = true)
    /\ (exists first, head (strip line) = Some first /\ isspace first = false)
    /\ (exists final_, last (strip line) = Some final_
                       /\ isspace final_ = false).
Proof.
  destruct (blank line) eqn:B.
  - pose proof (strip_blank _ B) as E. split; [exact E|].
    by apply handle_line_blank.
  - assert (strip line <> []) as Hne.
    { intros E. apply strip_nil_blank in E. congruence. }
    repeat split.
    + library_cases model line s Hne; by eexists.
    + library_cases model line s Hne; done.
    + apply strip_split.
    + destruct (strip line) as [|c p] eqn:E; [done|].
      exists c. split; [done|]. by apply (strip_head line c p).
    + destruct (strip line) as [|c p _] eqn:E using rev_ind; [done|].
      exists c. rewrite last_snoc. split; [done|].
      by apply (strip_last line p c).
Qed.

(** ** Further properties of the run *)

Lemma request_loop_frame model stdin s :
  environ (final (request_loop model stdin s)) = environ s
  /\ logging_disabled (final (request_loop model stdin s))
     = logging_disabled s.
Proof.
  revert s. induction stdin as [|line rest IH]; intros s; [done|].
  rewrite request_loop_cons. cbv zeta.
  assert (environ (final (handle_line model line s)) = environ s
          /\ logging_disabled (final (handle_line model line s))
             = logging_disabled s) as [He Hl].
  { rewrite handle_line_final. by destruct (is_empty (strip line)). }
  destruct (outcome (handle_line model line s)); cbn [final]; [|done|done].
  destruct (IH (final (handle_line model line s))) as [-> ->]. done.
Qed.

(** X1. In every execution, whether the model loads or not and whatever
    is read, the process leaves the environment as it found it but for
    [CT2_VERBOSE], which is [0], and leaves logging disabled at the level
    [WARNING]: the request loop changes neither. *)
Theorem main_sets_verbosity_only stdin s :
  environ (final (main stdin s)) =
    <[lit "CT2_VERBOSE" := lit "0"]> (environ s)
  /\ environ (final (main stdin s)) !! lit "CT2_VERBOSE" = Some (lit "0")
  /\ (forall key,
        key <> lit "CT2_VERBOSE" ->
        environ (final (main stdin s)) !! key = environ s !! key)
  /\ logging_disabled (final (main stdin s)) = WARNING.
Proof.
  assert (environ (final (main stdin s)) =
            <[lit "CT2_VERBOSE" := lit "0"]> (environ s)
          /\ logging_disabled (final (main stdin s)) = WARNING) as [He Hl].
  { startup_cases stdin s; cbn [final]; [|done|done].
    by destruct (request_loop_frame model stdin (loaded s w)) as [-> ->]. }
  rewrite He. repeat split; [|intros key Hkey|done].
  - apply lookup_insert_eq.
  - by apply lookup_insert_ne.
Qed.

(** X2. The request loop calls [transcribe] on the stripped lines that
    are not blank, in the order of the lines and at most once for each:
    the paths it is called with are the first of the requested paths, and
    all of them when the loop returns. It calls it for no other path. *)
Theorem transcribe_called_per_request_in_order model stdin s :
  (exists rest,
     List.filter (fun p => negb (is_empty p)) (List.map strip stdin) =
     paths_transcribed (events (request_loop model stdin s)) ++ rest)
  /\ (outcome (request_loop model stdin s) = Ok tt ->
      paths_transcribed (events (request_loop model stdin s)) =
      List.filter (fun p => negb (is_empty p)) (List.map strip stdin))
  /\ (length (paths_transcribed (events (request_loop model stdin s)))
      <= length stdin)%nat.
Proof.
  destruct (request_loop_trace model stdin s)
    as (replies & rest & _ & _ & Hreq & Hok).
  fold (requested_paths stdin). split; [by exists rest|]. split.
  - intros Hret. destruct (Hok Hret) as [_ ->]. by rewrite Hreq, app_nil_r.
  - assert (length (requested_paths stdin) <= length stdin)%nat as Hle.
    { unfold requested_paths.
      etrans; [apply List.filter_length_le|]. by rewrite length_map. }
    rewrite Hreq, length_app in Hle. lia.
Qed.

(** X4. In every execution every call of [transcribe] is made with the
    same options: no language given, beam size 5, the voice activity
    filter on, and 500 ms of minimal silence as its only parameter. *)
Theorem transcribe_options_are_fixed stdin s :
  Forall
    (fun kw =>
       language kw = None
       /\ beam_size kw = 5
       /\ vad_filter kw = true
       /\ vad_parameters kw = {[ lit "min_silence_duration_ms" := 500 ]})
    (kwargs_used (events (main stdin s))).
Proof.
  assert (Forall (fun kw => kw = kwargs) (kwargs_used (events (main stdin s))))
    as Hall.
  { startup_cases stdin s; cbn [events]; [|constructor|constructor].
    rewrite kwargs_used_app. apply Forall_app. split; [constructor|].
    by destruct (request_loop_model model stdin (loaded s w)) as (_ & _ & ?). }
  eapply Forall_impl; [exact Hall|]. by intros kw ->.
Qed.

Lemma flushed_app tr1 tr2 :
  flushed tr1 = true -> flushed tr2 = true -> flushed (tr1 ++ tr2) = true.
Proof.
  intros H1 H2. induction tr1 as [|e rest IH]; [done|].
  destruct e; simpl in *; try by apply IH.
  destruct rest as [|e' rest']; [done|].
  destruct e'; try done. by apply IH.
Qed.

Lemma flushed_quiet tr : io_of tr = [] -> flushed tr = true.
Proof.
  induction tr as [|e rest IH]; [done|].
  destruct e; simpl; try done; by apply IH.
Qed.

Lemma request_loop_flushed model stdin s :
  flushed (events (request_loop model stdin s)) = true.
Proof.
  revert stdin s.
  apply (request_loop_events_ind (fun tr => flushed tr = true)); try done.
  - apply flushed_app.
  - intros line s.
    destruct (handle_line_shape model line s)
      as (tr & s' & (Hio & _) & [(text & -> & _) | (o & _ & ->)]);
      cbn [events].
    + apply flushed_app; [by apply flushed_quiet | done].
    + by apply flushed_quiet.
Qed.

(** X5. In every execution every write to standard output, the handshake
    and each reply, is directly followed by a flush: nothing is written
    between a write and its flush, no line is read before it, and the
    process does not end on an unflushed write. *)
Theorem every_write_is_flushed stdin s :
  flushed (events (main stdin s)) = true.
Proof.
  startup_cases stdin s; cbn [events]; [|done|done].
  apply flushed_app; [done | apply request_loop_flushed].
Qed.

(** X6. Whitespace around a request is immaterial: a line preceded and
    followed by any whitespace (spaces, tabs, a carriage return, the
    newline or none at the end of the input) is stripped to the same path
    and handled, from the same machine, exactly as the line without
    it. *)
Theorem surrounding_whitespace_is_immaterial model pre line post s :
  blank pre = true ->
  blank post = true ->
  strip (pre ++ line ++ post) = strip line
  /\ handle_line model (pre ++ line ++ post) s = handle_line model line s.
Proof.
  intros Bpre Bpost.
  pose proof (strip_padding pre line post Bpre Bpost) as E.
  split; [exact E|]. unfold handle_line. by rewrite E.
Qed.

(** What the handling of a line prints on the error stream, and the
    path it calls the library on. *)
Lemma handle_line_stderr model line s :
  (stderr_of (events (handle_line model line s)) = []
   \/ (is_empty (strip line) = false
       /\ exists e, stderr_of (events (handle_line model line s)) =
                    [(lit "Error: " ++ message e) ++ [NL]]))
  /\ paths_transcribed (events (handle_line model line s)) =
     (if is_empty (strip line) then [] else [strip line]).
Proof.
  destruct (strip line) as [|c p] eqn:E.
  - rewrite handle_line_blank by done. split; [by left | done].
  - assert (strip line <> []) as Hne by (by rewrite E).
    rewrite <- E, (is_empty_false _ Hne). clear E.
    library_cases model line s Hne; (split; [|done]);
      first [by left | right; split; [done | by eexists]].
Qed.

(** X7. On the error stream the request loop prints nothing but
    diagnostics of the form [Error: <message>], each on a line of its
    own, and at most one for each call of [transcribe]: input made of
    blank lines prints nothing. *)
Theorem loop_prints_only_error_diagnostics model stdin s :
  Forall (fun d => exists msg, d = (lit "Error: " ++ msg) ++ [NL])
    (stderr_of (events (request_loop model stdin s)))
  /\ (length (stderr_of (events (request_loop model stdin s)))
      <= length (paths_transcribed (events (request_loop model stdin s))))%nat
  /\ (Forall (fun line => blank line = true) stdin ->
      stderr_of (events (request_loop model stdin s)) = []).
Proof.
  assert (Forall (fun d => exists msg, d = (lit "Error: " ++ msg) ++ [NL])
            (stderr_of (events (request_loop model stdin s)))
          /\ (length (stderr_of (events (request_loop model stdin s)))
              <= length (paths_transcribed
                           (events (request_loop model stdin s))))%nat)
    as [Hform Hlen].
  { revert stdin s.
    apply (request_loop_events_ind
             (fun tr =>
                Forall (fun d => exists msg, d = (lit "Error: " ++ msg) ++ [NL])
                  (stderr_of tr)
                /\ (length (stderr_of tr)
                    <= length (paths_transcribed tr))%nat)).
    - split; [constructor | done].
    - intros tr1 tr2 [Hf1 Hl1] [Hf2 Hl2].
      rewrite stderr_of_app, paths_transcribed_app, !length_app.
      split; [by apply Forall_app | lia].
    - intros line. split; [constructor | done].
    - intros line s.
      destruct (handle_line_stderr model line s)
        as [[-> | [Hne [e ->]]] ->].
      + split; [constructor | simpl; lia].
      + rewrite Hne. split; [|done].
        constructor; [by eexists | constructor]. }
  split; [exact Hform|]. split; [exact Hlen|].
  intros Hall.
  assert (requested_paths stdin = []) as Hnone.
  { clear Hform Hlen. induction Hall as [|line rest Hline _ IH]; [done|].
    change (requested_paths (line :: rest))
      with (if negb (is_empty (strip line))
            then strip line :: requested_paths rest
            else requested_paths rest).
    by rewrite (strip_blank _ Hline). }
  destruct (request_loop_trace model stdin s)
    as (replies & rest & _ & _ & Hreq & _).
  rewrite Hnone in Hreq. symmetry in Hreq.
  apply app_eq_nil in Hreq as [Hpaths _]. rewrite Hpaths in Hlen.
  by apply length_zero_iff_nil, Nat.le_0_r.
Qed.

(** X8. When the model loads and the library raises nothing but
    instances of [Exception] and returns segment texts that hold no
    newline and that standard output can encode, standard output read
    line by line is the handshake line followed by exactly one line for
    each input line, each line being one write of the process. *)
Theorem stdout_is_one_line_per_request stdin s model w :
  WhisperModel (model_name s) (lit "cpu") (lit "int8") (world s)
    = (Ok model, w) ->
  raises_exceptions_only ->
  encodable_texts ->
  single_line_texts ->
  readlines (concat (stdout_of (events (main stdin s)))) =
    stdout_of (events (main stdin s))
  /\ head (readlines (concat (stdout_of (events (main stdin s)))))
     = Some READY
  /\ length (readlines (concat (stdout_of (events (main stdin s)))))
     = S (length stdin).
Proof.
  intros H Hexc Henc Hsingle.
  destruct (request_loop_io model stdin (loaded s w) Hexc Henc)
    as (replies & Hlen & Hio & Hnl & _).
  assert (stdout_of (events (main stdin s)) =
          List.map (fun t => t ++ [NL]) (lit "READY" :: replies)) as ->.
  { rewrite (main_ok _ _ _ _ H). cbn [events]. rewrite stdout_of_app.
    rewrite <- (stdout_of_io (events _)), Hio, stdout_of_exchanges by done.
    done. }
  rewrite readlines_replies.
  - split; [done|]. split; [done|]. by rewrite length_map, <- Hlen.
  - constructor; [|by apply Hnl].
    intros Hin%list_elem_of_In. vm_compute in Hin. intuition discriminate.
Qed.

(** X9. Whatever the library and the streams do, every write of the loop
    to standard output ends a line: read line by line, its output holds
    exactly as many lines as newline characters were written, at least
    one line for each write, and there are never more writes than input
    lines. *)
Theorem every_write_ends_a_line model stdin s :
  length (readlines (concat (stdout_of (events (request_loop model stdin s)))))
    = newlines (concat (stdout_of (events (request_loop model stdin s))))
  /\ (length (stdout_of (events (request_loop model stdin s)))
      <= length (readlines
                   (concat (stdout_of
                              (events (request_loop model stdin s))))))%nat
  /\ (length (stdout_of (events (request_loop model stdin s)))
      <= length stdin)%nat.
Proof.
  destruct (request_loop_trace model stdin s)
    as (replies & rest & Hlen & -> & _).
  destruct (readlines_replies_length replies) as [Heq Hle].
  rewrite length_map. by repeat split.
Qed.

(** X10. The reply to a transcription that returned is the empty line
    exactly when there is no segment, or one segment only whose text is
    whitespace: two or more segments always give a reply with the
    separating spaces in it. *)
Theorem reply_is_empty_iff model line s segs w :
  strip line <> [] ->
  transcribe model (strip line) kwargs (world s) = (Ok (yields segs), w) ->
  stdout_of (events (handle_line model line s)) = [[NL]]
  <-> segs = [] \/ exists x, segs = [x] /\ blank (text x) = true.
Proof.
  intros Hne T.
  pose proof (stripped_texts_yields segs) as G.
  destruct (can_encode
              (join (lit " ") (List.map (fun x => strip (text x)) segs)
               ++ [NL])) eqn:E.
  - rewrite (handle_line_returns _ _ _ _ _ _ Hne T G E).
    cbn [events]. change (stdout_of [?a; Stdout ?x; ?b]) with [x].
    split.
    + intros [= Hjoin]. apply (app_inv_tail [NL] _ []) in Hjoin.
      apply join_nil_iff in Hjoin as [Hnil | Hone].
      * left. by destruct segs.
      * right. destruct segs as [|x [|y r]]; try done.
        injection Hone as Hx. exists x. split; [done|].
        by apply strip_nil_blank.
    + intros [-> | (x & -> & Hx)]; [done|].
      simpl. by rewrite (strip_blank _ Hx).
  - rewrite (handle_line_unencodable _ _ _ _ _ _ Hne T G E).
    split; [done|].
    intros [-> | (x & -> & Hx)]; [done|].
    simpl in E. by rewrite (strip_blank _ Hx) in E.
Qed.

(** X11. When the lines are those of an input stream, no path given to
    [transcribe] holds a newline: a line holds one at its end only, and
    stripping removes it. *)
Theorem paths_hold_no_newline model (input : str) s :
  Forall (fun p => NL ∉ p)
    (paths_transcribed (events (request_loop model (readlines input) s))).
Proof.
  assert (Forall (fun p => NL ∉ p) (requested_paths (readlines input)))
    as Hall.
  { unfold requested_paths.
    pose proof (readlines_wf input) as Hwf.
    induction Hwf as [|l ls (body & Hnl & Hl) _ IH]; [constructor|].
    cbn [List.map List.filter].
    destruct (negb (is_empty (strip l))); [|exact IH].
    constructor; [|exact IH].
    intros Hin. apply Hnl. destruct Hl as [-> | ->].
    - pose proof (strip_padding [] body [NL] eq_refl eq_refl) as E.
      change ([] ++ body ++ [NL]) with (body ++ [NL]) in E.
      rewrite E in Hin. by apply elem_of_strip.
    - by apply elem_of_strip. }
  destruct (request_loop_trace model (readlines input) s)
    as (replies & rest & _ & _ & Hreq & _).
  rewrite Hreq in Hall. by apply Forall_app in Hall as [? _].
Qed.

(** Two inputs that differ in their last line only, by lines that are
    handled alike, give the same run but for the read of that line. *)
Lemma request_loop_last model ls l l' s :
  (forall s', handle_line model l s' = handle_line model l' s') ->
  stdout_of (events (request_loop model (ls ++ [l]) s)) =
    stdout_of (events (request_loop model (ls ++ [l']) s))
  /\ stderr_of (events (request_loop model (ls ++ [l]) s)) =
     stderr_of (events (request_loop model (ls ++ [l']) s))
  /\ paths_transcribed (events (request_loop model (ls ++ [l]) s)) =
     paths_transcribed (events (request_loop model (ls ++ [l']) s))
  /\ final (request_loop model (ls ++ [l]) s) =
     final (request_loop model (ls ++ [l']) s).
Proof.
  intros Hsame. revert s. induction ls as [|line rest IH]; intros s.
  - simpl app. rewrite !request_loop_cons, Hsame. cbv zeta.
    by destruct (outcome (handle_line model l' s)).
  - rewrite <- !app_comm_cons, !request_loop_cons. cbv zeta.
    destruct (outcome (handle_line model line s)); [|done|done].
    cbn [events final].
    destruct (IH (final (handle_line model line s))) as (Ho & He & Hp & Hf).
    change (ReadLine line :: ?x) with ([ReadLine line] ++ x).
    rewrite !stdout_of_app, !stderr_of_app, !paths_transcribed_app.
    by rewrite Ho, He, Hp, Hf.
Qed.

(** X12. The newline after the last request is optional: on an input
    whose last character is not a newline the loop writes the same
    replies and the same diagnostics, calls [transcribe] on the same
    paths and leaves the same machine as on that input followed by a
    newline. *)
Theorem final_newline_is_optional model (body : str) (c : codepoint) s :
  c <> NL ->
  stdout_of (events (request_loop model (readlines (body ++ [c])) s)) =
    stdout_of (events (request_loop model (readlines (body ++ [c; NL])) s))
  /\ stderr_of (events (request_loop model (readlines (body ++ [c])) s)) =
     stderr_of (events (request_loop model (readlines (body ++ [c; NL])) s))
  /\ paths_transcribed
       (events (request_loop model (readlines (body ++ [c])) s)) =
     paths_transcribed
       (events (request_loop model (readlines (body ++ [c; NL])) s))
  /\ final (request_loop model (readlines (body ++ [c])) s) =
     final (request_loop model (readlines (body ++ [c; NL])) s).
Proof.
  intros Hc.
  destruct (readlines_unterminated body c Hc) as (ls & l & -> & ->).
  apply request_loop_last. intros s'.
  pose proof (strip_padding [] l [NL] eq_refl eq_refl) as E.
  change ([] ++ l ++ [NL]) with (l ++ [NL]) in E.
  unfold handle_line. by rewrite E.
Qed.

End Daemon.

(** ** The statements on the sample collaborators *)

(** A session with the sample library, standard output in UTF-8 and an
    input that ends at the end of the stream: the handshake, then one
    reply per request, empty for the blank line, the missing file, the
    file that fails while it is decoded and the silent one. *)
Example sample_session_stdout :
  stdout_of
    (events
       (main utf8 (Ok tt) sample_WhisperModel sample_transcribe
          [speech_request; blank_request; missing_request;
           truncated_request; silence_request] at_boot)) =
  [READY; lit "Hello there. General Kenobi." ++ [NL];
   [NL]; [NL]; [NL]; [NL]]
  /\ stderr_of
       (events
          (main utf8 (Ok tt) sample_WhisperModel sample_transcribe
             [speech_request; blank_request; missing_request;
              truncated_request; silence_request] at_boot)) =
     [lit "Loading Whisper model 'small'..." ++ [NL];
      lit "Model ready." ++ [NL];
      lit "Error: No such file or directory: 'missing.wav'" ++ [NL];
      lit "Error: Invalid data found when processing input" ++ [NL]]
  /\ outcome
       (main utf8 (Ok tt) sample_WhisperModel sample_transcribe
          [speech_request; blank_request; missing_request;
           truncated_request; silence_request] at_boot) = Ok tt.
Proof. vm_compute. done. Qed.

Example sample_session_tiny :
  loads_of
    (events
       (main utf8 (Ok tt) sample_WhisperModel sample_transcribe []
          at_boot_tiny)) =
  [(lit "tiny", lit "cpu", lit "int8")].
Proof. vm_compute. done. Qed.

(** The sample library raises instances of [Exception] only, and its
    texts are of one line and of ASCII characters. *)
Lemma sample_transcribe_raises_exceptions_only :
  raises_exceptions_only sample_transcribe.
Proof.
  intros model path kw w. unfold sample_transcribe.
  by repeat case_bool_decide.
Qed.

Lemma sample_transcribe_single_line : single_line_texts sample_transcribe.
Proof.
  intros model path kw w g w'. unfold sample_transcribe.
  repeat case_bool_decide; intros [= <- _]; simpl;
    repeat constructor; intros Hin%list_elem_of_In; vm_compute in Hin;
    intuition discriminate.
Qed.

Lemma sample_transcribe_encodable : encodable_texts utf8 sample_transcribe.
Proof.
  intros model path kw w g w'. unfold sample_transcribe.
  repeat case_bool_decide; intros [= <- _]; simpl; by repeat constructor.
Qed.

Lemma request_loop_one_reply_per_line_witness :
  raises_exceptions_only sample_transcribe
  /\ encodable_texts utf8 sample_transcribe
  /\ single_line_texts sample_transcribe
  /\ exists replies : list str,
       length replies = 3%nat
       /\ readlines
            (concat
               (stdout_of
                  (events
                     (request_loop utf8 (Ok tt) sample_transcribe 7
                        [speech_request; blank_request; missing_request]
                        at_boot)))) =
          List.map (fun t => t ++ [NL]) replies.
Proof.
  split; [exact sample_transcribe_raises_exceptions_only|].
  split; [exact sample_transcribe_encodable|].
  split; [exact sample_transcribe_single_line|].
  destruct (request_loop_one_reply_per_line utf8 (Ok tt) sample_transcribe 7
              [speech_request; blank_request; missing_request] at_boot
              sample_transcribe_raises_exceptions_only
              sample_transcribe_encodable sample_transcribe_single_line)
    as (replies & Hlen & _ & _ & _ & Hlines & _).
  exists replies. split; [exact Hlen | exact Hlines].
Defined.

(** C1 as stated does not hold: a transcript of two lines gives two
    output lines for one input line; a transcript that standard output
    cannot encode, and an exit raised by the library, end the process, so
    that two input lines get no output line at all. *)
Lemma one_output_line_per_input_line_fails :
  length
    (readlines
       (concat
          (stdout_of
             (events
                (request_loop utf8 (Ok tt) awkward_transcribe 7
                   [lyrics_request] at_boot)))))
  <> length [lyrics_request]
  /\ length
       (readlines
          (concat
             (stdout_of
                (events
                   (request_loop ascii_only (Ok tt) awkward_transcribe 7
                      [cafe_request; ready_request] at_boot)))))
     <> length [cafe_request; ready_request]
  /\ length
       (readlines
          (concat
             (stdout_of
                (events
                   (request_loop utf8 (Ok tt) awkward_transcribe 7
                      [exit_request; ready_request] at_boot)))))
     <> length [exit_request; ready_request].
Proof. vm_compute. repeat split; discriminate. Qed.





Lemma blank_line_yields_blank_line_witness :
  strip blank_request = []
  /\ handle_line utf8 sample_transcribe 7 blank_request at_boot =
     {| events := [Stdout [NL]; Flush]; final := at_boot; outcome := Ok tt |}.
Proof.
  assert (strip blank_request = []) as H by reflexivity.
  split; [exact H|].
  exact (proj1 (blank_line_yields_blank_line utf8 (Ok tt) sample_transcribe 7
                  blank_request [] at_boot H)).
Defined.

Lemma transcript_is_joined_stripped_texts_witness :
  strip speech_request <> []
  /\ sample_transcribe 7 (strip speech_request) kwargs (world at_boot) =
     (Ok (yields [ {| text := lit " Hello there." |};
                   {| text := lit " General Kenobi. " |} ]), 1%nat)
  /\ handle_line utf8 sample_transcribe 7 speech_request at_boot =
     {| events :=
          [Transcribe 7 (lit "speech.wav") kwargs;
           Stdout (lit "Hello there. General Kenobi." ++ [NL]);
           Flush];
        final := set_world at_boot 1%nat; outcome := Ok tt |}.
Proof.
  assert (strip speech_request <> []) as H1 by (vm_compute; discriminate).
  assert (sample_transcribe 7 (strip speech_request) kwargs (world at_boot) =
          (Ok (yields [ {| text := lit " Hello there." |};
                        {| text := lit " General Kenobi. " |} ]), 1%nat))
    as H2 by reflexivity.
  split; [exact H1|]. split; [exact H2|].
  exact (proj1 (transcript_is_joined_stripped_texts utf8 sample_transcribe 7
                  speech_request at_boot _ 1%nat H1 H2)).
Defined.

(** C5 as stated, for every transcription that returns, does not hold:
    with standard output in ASCII, the transcript of [cafe.wav] is not
    written; the write raises and the iteration ends with no output
    line. *)
Lemma unencodable_transcript_is_not_written :
  awkward_transcribe 7 (strip cafe_request) kwargs (world at_boot) =
    (Ok (yields [ {| text := lit " caf" ++ [233] |} ]), 1%nat)
  /\ stdout_of
       (events (handle_line ascii_only awkward_transcribe 7 cafe_request
                  at_boot)) = []
  /\ outcome (handle_line ascii_only awkward_transcribe 7 cafe_request at_boot)
     = Raise UnicodeEncodeError.
Proof. vm_compute. done. Qed.




Lemma surrounding_whitespace_is_immaterial_witness :
  blank [32; 9] = true
  /\ blank [13; NL] = true
  /\ handle_line utf8 sample_transcribe 7
       ([32; 9] ++ lit "speech.wav" ++ [13; NL]) at_boot =
     handle_line utf8 sample_transcribe 7 (lit "speech.wav") at_boot.
Proof.
  assert (blank [32; 9] = true) as H1 by reflexivity.
  assert (blank [13; NL] = true) as H2 by reflexivity.
  split; [exact H1|]. split; [exact H2|].
  exact (proj2 (surrounding_whitespace_is_immaterial utf8 sample_transcribe 7
                  [32; 9] (lit "speech.wav") [13; NL] at_boot H1 H2)).
Defined.

Lemma stdout_is_one_line_per_request_witness :
  sample_WhisperModel (model_name at_boot) (lit "cpu") (lit "int8")
    (world at_boot) = (Ok 7, 1%nat)
  /\ raises_exceptions_only sample_transcribe
  /\ encodable_texts utf8 sample_transcribe
  /\ single_line_texts sample_transcribe
  /\ length
       (readlines
          (concat
             (stdout_of
                (events
                   (main utf8 (Ok tt) sample_WhisperModel sample_transcribe
                      [speech_request; blank_request; missing_request]
                      at_boot))))) = 4%nat.
Proof.
  assert (sample_WhisperModel (model_name at_boot) (lit "cpu") (lit "int8")
            (world at_boot) = (Ok 7, 1%nat)) as H by reflexivity.
  split; [exact H|].
  split; [exact sample_transcribe_raises_exceptions_only|].
  split; [exact sample_transcribe_encodable|].
  split; [exact sample_transcribe_single_line|].
  exact (proj2 (proj2 (stdout_is_one_line_per_request utf8 (Ok tt)
                         sample_WhisperModel sample_transcribe
                         [speech_request; blank_request; missing_request]
                         at_boot 7 1%nat H
                         sample_transcribe_raises_exceptions_only
                         sample_transcribe_encodable
                         sample_transcribe_single_line))).
Defined.

Lemma reply_is_empty_iff_witness :
  strip silence_request <> []
  /\ sample_transcribe 7 (strip silence_request) kwargs (world at_boot) =
     (Ok (yields []), 1%nat)
  /\ stdout_of
       (events (handle_line utf8 sample_transcribe 7 silence_request at_boot))
     = [[NL]].
Proof.
  assert (strip silence_request <> []) as H1 by (vm_compute; discriminate).
  assert (sample_transcribe 7 (strip silence_request) kwargs (world at_boot) =
          (Ok (yields []), 1%nat)) as H2 by reflexivity.
  split; [exact H1|]. split; [exact H2|].
  apply (reply_is_empty_iff utf8 sample_transcribe 7 silence_request at_boot
           [] 1%nat H1 H2).
  by left.
Defined.

Lemma final_newline_is_optional_witness :
  (114 : codepoint) <> NL
  /\ stdout_of
       (events
          (request_loop utf8 (Ok tt) sample_transcribe 7
             (readlines (silence_request ++ lit " speech.wa" ++ [114]))
             at_boot)) =
     stdout_of
       (events
          (request_loop utf8 (Ok tt) sample_transcribe 7
             (readlines (silence_request ++ lit " speech.wa" ++ [114; NL]))
             at_boot)).
Proof.
  assert ((114 : codepoint) <> NL) as H by discriminate.
  split; [exact H|].
  exact (proj1 (final_newline_is_optional utf8 (Ok tt) sample_transcribe 7
                  (silence_request ++ lit " speech.wa") 114 at_boot H)).
Defined.
